(** * LoWAPP simulation: node configuration (configuration.c)

    A shallow embedding of [simulation/src/system/configuration.c]:
    the key-addressed configuration record ([get_config], [set_config]),
    the configuration-file line parser ([parse_line]) and the start-up
    path resolution ([node_init], [get_uuid]).

    C strings are [string] (the characters before the terminating NUL),
    a [char*] that may be [NULL] is [option string], bytes and integers
    are [Z].  A call whose behaviour C leaves undefined (reading through
    a null pointer, reading an uninitialised local, writing past the end
    of an array) is [Undefined]. *)

From Stdlib Require Import ZArith String Ascii List Bool Lia.
From Stdlib Require Import DecimalString DecimalN.
Import ListNotations.

Open Scope string_scope.
Open Scope Z_scope.

(** ** Outcomes of C calls *)

Inductive outcome (A : Type) : Type :=
| Done (a : A)
| Undefined.

Arguments Done {A} a.
Arguments Undefined {A}.

Definition bind {A B : Type} (m : outcome A) (k : A -> outcome B) : outcome B :=
  match m with
  | Done a => k a
  | Undefined => Undefined
  end.

Notation "x <- m ;; k" := (bind m (fun x => k))
  (at level 61, m at next level, right associativity).

Definition defined {A : Type} (m : outcome A) : Prop :=
  exists a, m = Done a.

(** A [const uint8_t*] / [char*] argument: [None] is the null pointer. *)
Definition pointer : Type := option string.
Definition NULL : pointer := None.

(** [strlen] of the C library: the length of the string pointed to; a
    null argument has no defined behaviour. *)
Definition strlen (s : pointer) : outcome Z :=
  match s with
  | Some str => Done (Z.of_nat (String.length str))
  | None => Undefined
  end.

(** [strcmp] of the C library: the sign of the first difference, the
    characters compared as unsigned bytes. *)
Definition strcmp (a b : string) : Z :=
  match String.compare a b with
  | Eq => 0
  | Lt => -1
  | Gt => 1
  end.

(** Conversion of an integer result to a 2-byte unsigned field. *)
Definition uint16 (x : Z) : Z := x mod 65536.

(** Conversion of an integer result to the [int8_t] a function returns. *)
Definition int8 (x : Z) : Z := (x + 128) mod 256 - 128.

(** ** The configuration record *)

(** Modelled from the spec: [ConfigNode_t] is declared in configuration.h,
    which is not among the sources.  The fields and their widths are those
    of the spec's data model (deviceId 1 byte, groupId 2 bytes, gwMask
    4 bytes, rchanId 1 byte, rsf 1 byte, preambleTime a 2-byte unsigned
    integer, encKey 16 bytes), which are also the sizes [get_config] and
    [set_config] pass.  [groupId], [gwMask] and [encKey] are only ever
    accessed through a [uint8_t*], so they are kept as the bytes they
    occupy, in memory order. *)
Record ConfigNode_t : Type := mkConfig {
  deviceId : Z;
  groupId : list Z;
  gwMask : list Z;
  rchanId : Z;
  rsf : Z;
  preambleTime : Z;
  encKey : list Z
}.

Definition set_deviceId (v : Z) (c : ConfigNode_t) : ConfigNode_t :=
  mkConfig v (groupId c) (gwMask c) (rchanId c) (rsf c) (preambleTime c) (encKey c).
Definition set_groupId (v : list Z) (c : ConfigNode_t) : ConfigNode_t :=
  mkConfig (deviceId c) v (gwMask c) (rchanId c) (rsf c) (preambleTime c) (encKey c).
Definition set_gwMask (v : list Z) (c : ConfigNode_t) : ConfigNode_t :=
  mkConfig (deviceId c) (groupId c) v (rchanId c) (rsf c) (preambleTime c) (encKey c).
Definition set_rchanId (v : Z) (c : ConfigNode_t) : ConfigNode_t :=
  mkConfig (deviceId c) (groupId c) (gwMask c) v (rsf c) (preambleTime c) (encKey c).
Definition set_rsf (v : Z) (c : ConfigNode_t) : ConfigNode_t :=
  mkConfig (deviceId c) (groupId c) (gwMask c) (rchanId c) v (preambleTime c) (encKey c).
Definition set_preambleTime (v : Z) (c : ConfigNode_t) : ConfigNode_t :=
  mkConfig (deviceId c) (groupId c) (gwMask c) (rchanId c) (rsf c) v (encKey c).
Definition set_encKey (v : list Z) (c : ConfigNode_t) : ConfigNode_t :=
  mkConfig (deviceId c) (groupId c) (gwMask c) (rchanId c) (rsf c) (preambleTime c) v.

(** Fields are zero-initialised until set (a C object of static storage). *)
Definition zeroConfig : ConfigNode_t :=
  mkConfig 0 [0; 0] [0; 0; 0; 0] 0 0 0 (repeat 0 16).

(** ** The key literals *)

(** Modelled from the spec: the seven key literals are [extern] arrays
    defined outside configuration.c; their text is the field names of the
    spec's data model, as in its example line [deviceId:AB]. *)
Definition strDeviceId : string := "deviceId".
Definition strGroupId : string := "groupId".
Definition strGwMask : string := "gwMask".
Definition strEncKey : string := "encKey".
Definition strRchanId : string := "rchanId".
Definition strRsf : string := "rsf".
Definition strPreambleTime : string := "preambleTime".

(** The closed key set, in the order [set_config] compares against it. *)
Definition recognized_keys : list string :=
  [strGwMask; strDeviceId; strGroupId; strRchanId; strRsf; strPreambleTime; strEncKey].

Definition recognized (key : string) : bool :=
  existsb (fun k => strcmp key k =? 0) recognized_keys.

(** ** The conversion routines (lowapp_utils_conversion.h) *)

(** The five routines configuration.c calls are declared in
    lowapp_utils_conversion.h and defined elsewhere.  The interface below
    has one entry per routine, with the arguments of the calls:
    - a destination is passed as the bytes it currently holds and comes
      back as the bytes it holds after the call (whatever status the
      routine returns is discarded by every call in [set_config]);
    - a source is the pointer itself, so that a routine decides what it
      does with [NULL];
    - the two [Fill] routines receive the text buffer, the offset, the
      data, the count and the [end] flag, and give back their result
      (which [get_config] returns, narrowed to its [int8_t]) and the
      buffer. *)
Class Conversion : Type := {
  AsciiHexStringConversionBI8_t : list Z -> pointer -> Z -> outcome (list Z);
  AsciiHexConversionOneValueBI8_t : Z -> pointer -> outcome Z;
  AsciiDecStringConversion_t : pointer -> Z -> outcome Z;
  FillBufferHexBI8_t : string -> Z -> list Z -> Z -> bool -> Z * string;
  FillBuffer16_t : string -> Z -> list Z -> Z -> bool -> Z * string
}.

(** ** get_config and set_config *)

Section Config.

Context {conv : Conversion}.

(** [return] of what a [Fill] routine gave, from a function whose
    return type is [int8_t]: the integer is narrowed, the buffer is as
    the routine left it. *)
Definition returned (filled : Z * string) : Z * string :=
  (int8 (fst filled), snd filled).

(** [int8_t get_config(const uint8_t* key, uint8_t* value)]: the result
    is the return value together with the content of [value].  The
    record is the data the [Fill] routines read. *)
Definition get_config (key : string) (value : string) (myConfig : ConfigNode_t)
  : Z * string :=
  if strcmp key strGwMask =? 0 then
    returned (FillBufferHexBI8_t value 0 (gwMask myConfig) 4 true)
  else if strcmp key strDeviceId =? 0 then
    returned (FillBufferHexBI8_t value 0 [deviceId myConfig] 1 true)
  else if strcmp key strGroupId =? 0 then
    returned (FillBufferHexBI8_t value 0 (groupId myConfig) 2 true)
  else if strcmp key strRchanId =? 0 then
    returned (FillBufferHexBI8_t value 0 [rchanId myConfig] 1 true)
  else if strcmp key strRsf =? 0 then
    returned (FillBufferHexBI8_t value 0 [rsf myConfig] 1 true)
  else if strcmp key strPreambleTime =? 0 then
    returned (FillBuffer16_t value 0 [preambleTime myConfig] 1 true)
  else if strcmp key strEncKey =? 0 then
    returned (FillBufferHexBI8_t value 0 (encKey myConfig) 16 true)
  else
    (-1, value).

(** [int8_t set_config(const uint8_t* key, const uint8_t* val)]: the
    result is the return value together with the record after the call.
    [val] goes to the conversion routine (and to [strlen]) as it came.
    For [deviceId] the destination is the one byte of the field, which
    takes the first byte the routine leaves there. *)
Definition set_config (key : string) (val : pointer) (myConfig : ConfigNode_t)
  : outcome (Z * ConfigNode_t) :=
  if strcmp key strGwMask =? 0 then
    b <- AsciiHexStringConversionBI8_t (gwMask myConfig) val 8 ;;
    Done (0, set_gwMask b myConfig)
  else if strcmp key strDeviceId =? 0 then
    b <- AsciiHexStringConversionBI8_t [deviceId myConfig] val 2 ;;
    Done (0, set_deviceId (hd (deviceId myConfig) b) myConfig)
  else if strcmp key strGroupId =? 0 then
    b <- AsciiHexStringConversionBI8_t (groupId myConfig) val 4 ;;
    Done (0, set_groupId b myConfig)
  else if strcmp key strRchanId =? 0 then
    b <- AsciiHexConversionOneValueBI8_t (rchanId myConfig) val ;;
    Done (0, set_rchanId b myConfig)
  else if strcmp key strRsf =? 0 then
    b <- AsciiHexConversionOneValueBI8_t (rsf myConfig) val ;;
    Done (0, set_rsf b myConfig)
  else if strcmp key strPreambleTime =? 0 then
    n <- strlen val ;;
    t <- AsciiDecStringConversion_t val n ;;
    Done (0, set_preambleTime (uint16 t) myConfig)
  else if strcmp key strEncKey =? 0 then
    b <- AsciiHexStringConversionBI8_t (encKey myConfig) val 32 ;;
    Done (0, set_encKey b myConfig)
  else
    Done (-1, myConfig).

End Config.

(** ** The codec of the spec *)

Module Codec.

(** Modelled from the spec: the value of one ASCII hexadecimal digit
    (the spec's "valid hex digits"); the routine that reads digits is
    defined outside configuration.c. *)
Definition hexValue (c : ascii) : option Z :=
  let n := Z.of_N (N_of_ascii c) in
  if (48 <=? n) && (n <=? 57) then Some (n - 48)
  else if (65 <=? n) && (n <=? 70) then Some (n - 55)
  else if (97 <=? n) && (n <=? 102) then Some (n - 87)
  else None.

(** Modelled from the spec: the ASCII digit of a value below 16, in the
    one case convention the codec uses ("uppercase (or lowercase, per
    encoding convention used consistently)"): [upper] chooses it. *)
Definition hexDigit (upper : bool) (d : Z) : ascii :=
  if d <? 10 then ascii_of_N (Z.to_N (48 + d))
  else ascii_of_N (Z.to_N ((if upper then 55 else 87) + d)).

(** Modelled from the spec: [decodeHexField(binary, byteLength)], "a
    hexadecimal string of exactly 2 * byteLength characters,
    most-significant byte first", which "never reads beyond byteLength
    bytes".  It stands for the body of [FillBufferHexBI8_t], which is not
    among the sources. *)
Fixpoint decodeHexField (upper : bool) (binary : list Z) (byteLength : nat)
  {struct byteLength} : string :=
  match byteLength, binary with
  | S n, b :: rest =>
      String (hexDigit upper ((b / 16) mod 16))
        (String (hexDigit upper (b mod 16)) (decodeHexField upper rest n))
  | _, _ => ""
  end.

(** Modelled from the spec: [encodeHexField(asciiHexString, byteLength)],
    which "parses exactly the first 2 * byteLength hex characters into
    byteLength bytes, most-significant byte first; characters beyond that
    length are ignored, characters before it must be valid hex digits";
    [None] is the spec's [InvalidEncoding].  It stands for the body of
    [AsciiHexStringConversionBI8_t], which is not among the sources. *)
Fixpoint encodeHexField (asciiHexString : string) (byteLength : nat)
  {struct byteLength} : option (list Z) :=
  match byteLength with
  | O => Some []
  | S n =>
      match asciiHexString with
      | String hi (String lo rest) =>
          match hexValue hi, hexValue lo, encodeHexField rest n with
          | Some h, Some l, Some bs => Some (16 * h + l :: bs)
          | _, _, _ => None
          end
      | _ => None
      end
  end.

(** Modelled from the spec: [decodeDecimalField], which "converts an
    unsigned integer field to its base-10 text representation".  It
    stands for the body of [FillBuffer16_t], which is not among the
    sources. *)
Definition decodeDecimalField (binary : Z) : string :=
  NilZero.string_of_uint (N.to_uint (Z.to_N binary)).

(** Modelled from the spec: the number a decimal string "of arbitrary
    length" denotes; [None] when the text is empty or holds a character
    that is not a decimal digit. *)
Definition decimalValue (asciiDecimalString : string) : option Z :=
  option_map (fun d => Z.of_N (N.of_uint d)) (NilZero.uint_of_string asciiDecimalString).

(** Modelled from the spec: [encodeDecimalField(asciiDecimalString)],
    where "overflow beyond the target field width is an InvalidEncoding
    error" ([None]); the target is the 2-byte [preambleTime].  It stands
    for the body of [AsciiDecStringConversion_t], which is not among the
    sources. *)
Definition encodeDecimalField (asciiDecimalString : string) : option Z :=
  match decimalValue asciiDecimalString with
  | Some n => if n <? 65536 then Some n else None
  | None => None
  end.

(** The text of a buffer after [text] was written at [offset]: the
    characters before the offset stay, a terminator follows the text
    when [terminate] is set, and otherwise what the buffer held after
    the written part is still there. *)
Definition writeText (buffer : string) (offset : Z) (text : string) (terminate : bool)
  : string :=
  let o := Z.to_nat offset in
  substring 0 o buffer ++ text ++
  (if terminate then ""
   else substring (o + String.length text) (String.length buffer) buffer).

(** Modelled from the spec: the five routines with the prototypes
    configuration.c uses, over the codec above.
    - A routine reads its source through the pointer it is given, so a
      null source has no defined behaviour.
    - The spec has a rejected text fail with [InvalidEncoding] and the
      field keep its content ("either the whole field is replaced or
      nothing changes"): the destination is then returned as it was.
    - [AsciiDecStringConversion_t] returns an integer, which
      [set_config] assigns; the prototype has no room for
      [InvalidEncoding], and the integer returned for a rejected text
      is 0 here.
    - The [Fill] routines write the text at the offset and return 0;
      the spec gives [Get] an [ok] and the text, and says nothing of
      the offset and the [end] flag, which the calls fix at 0 and true. *)
#[export] Instance conversion (upper : bool) : Conversion := {|
  AsciiHexStringConversionBI8_t dest src length :=
    match src with
    | None => Undefined
    | Some s =>
        match encodeHexField s (Z.to_nat (length / 2)) with
        | Some bs => Done (bs ++ skipn (List.length bs) dest)%list
        | None => Done dest
        end
    end;
  AsciiHexConversionOneValueBI8_t dest src :=
    match src with
    | None => Undefined
    | Some s =>
        match encodeHexField s 1 with
        | Some (b :: _) => Done b
        | _ => Done dest
        end
    end;
  AsciiDecStringConversion_t src size :=
    match src with
    | None => Undefined
    | Some s =>
        match encodeDecimalField (substring 0 (Z.to_nat size) s) with
        | Some n => Done n
        | None => Done 0
        end
    end;
  FillBufferHexBI8_t buffer offset data size terminate :=
    (0, writeText buffer offset (decodeHexField upper data (Z.to_nat size)) terminate);
  FillBuffer16_t buffer offset data size terminate :=
    (0, writeText buffer offset
          (String.concat "" (map decodeDecimalField (firstn (Z.to_nat size) data)))
          terminate)
|}.

End Codec.

(** ** parse_line *)

(** [strtok] of the C library, with its hidden position made explicit.
    [skip_delims] is its [strspn] step and [take_token] its [strcspn]
    step: the token, and what follows the delimiter that ended it
    ([None] when the token ran to the end of the string). *)
Definition is_delim (delim : string) (c : ascii) : bool :=
  existsb (Ascii.eqb c) (list_ascii_of_string delim).

Fixpoint skip_delims (delim : string) (s : string) : string :=
  match s with
  | String c rest => if is_delim delim c then skip_delims delim rest else s
  | EmptyString => s
  end.

Fixpoint take_token (delim : string) (s : string) : string * option string :=
  match s with
  | String c rest =>
      if is_delim delim c then (EmptyString, Some rest)
      else let (tok, after) := take_token delim rest in (String c tok, after)
  | EmptyString => (EmptyString, None)
  end.

(** [strtok str delim saved]: [str] is the first argument ([None] for
    [NULL], which continues at the saved position), [saved] the position
    the previous call left.  The result is the token ([None] for [NULL])
    and the position saved for the next call. *)
Definition strtok (str : pointer) (delim : string) (saved : string)
  : pointer * string :=
  let s := match str with Some s => s | None => saved end in
  match skip_delims delim s with
  | EmptyString => (None, EmptyString)
  | String c rest =>
      match take_token delim (String c rest) with
      | (tok, Some after) => (Some tok, after)
      | (tok, None) => (Some tok, EmptyString)
      end
  end.

(** The two [strtok] calls of [parse_line]: [ptr_key], and [ptr_val]
    when the first call found a token. *)
Definition split_line (line : string) : option (string * pointer) :=
  match strtok (Some line) ":" EmptyString with
  | (Some ptr_key, saved) =>
      Some (ptr_key, fst (strtok NULL ":" saved))
  | (None, _) => None
  end.

Section ParseLine.

Context {conv : Conversion}.

(** [int8_t parse_line(char* line)] *)
Definition parse_line (line : string) (myConfig : ConfigNode_t)
  : outcome (Z * ConfigNode_t) :=
  match strtok (Some line) ":" EmptyString with
  | (Some ptr_key, saved) =>
      let ptr_val := fst (strtok NULL ":" saved) in
      set_config ptr_key ptr_val myConfig
  | (None, _) => Done (-1, myConfig)
  end.

End ParseLine.

(** ** node_init *)

(** [struct arguments], filled by the command-line parser: each field is
    a [char*] that is [NULL] when the option was not given. *)
Record arguments : Type := mkArguments {
  config : pointer;
  uuid : pointer;
  directory : pointer
}.

(** What [node_init] does to its surroundings, in order: a call of
    [file_exists] on a path, or a [LOG] call with its level and its
    formatted message. *)
Inductive log_level : Type := LOG_FATAL.

Inductive event : Type :=
| FileExists (path : string)
| LOG (level : log_level) (message : string).

(** The three messages of [node_init], [%s] filled in. *)
Definition msg_not_found (path : string) : string :=
  "The config file (" ++ path ++ ") does not exists".
Definition msg_invalid_uuid : string :=
  "The UUID passed as parameter is not valid".
Definition msg_not_enough : string :=
  String.concat (String "010" "")
    ["Not enough parameters were sent to the program.";
     "For correct usage, see --help option"].

(** [isxdigit] of the C library. *)
Definition isxdigit (c : ascii) : bool :=
  let n := N_of_ascii c in
  ((48 <=? n) && (n <=? 57) || (65 <=? n) && (n <=? 70) || (97 <=? n) && (n <=? 102))%N.

(** [uuid_parse] of libuuid, its return value: 0 when the text has 36
    characters, a hyphen at offsets 8, 13, 18 and 23 and a hexadecimal
    digit everywhere else; -1 otherwise. *)
Fixpoint uuid_syntax (i : nat) (s : string) : bool :=
  match s with
  | EmptyString => true
  | String c rest =>
      (if (i =? 8)%nat || (i =? 13)%nat || (i =? 18)%nat || (i =? 23)%nat
       then Ascii.eqb c "-" else isxdigit c)
      && uuid_syntax (S i) rest
  end.

Definition uuid_parse (text : string) : Z :=
  if (String.length text =? 36)%nat && uuid_syntax 0 text then 0 else -1.

(** [strcpy] and [strcat] of the C library into an array of [size]
    bytes.  Neither checks that the text and its terminator fit, and
    writing past the array has no defined behaviour.  [strcpy] gives the
    text the array holds afterwards, [strcat] the text after [src] was
    appended to the text [dest] it held. *)
Definition strcpy (size : nat) (src : string) : outcome string :=
  if (String.length src <? size)%nat then Done src else Undefined.

Definition strcat (size : nat) (dest src : string) : outcome string :=
  if (String.length dest + String.length src <? size)%nat
  then Done (dest ++ src) else Undefined.

(** The array [configFile] is defined outside configuration.c.  The
    [memset] on entry of [node_init] clears 100 bytes of it: the array
    has those 100 bytes and [spare] more. *)
Definition configFile_size (spare : nat) : nat := 100 + spare.

Section NodeInit.

(** The bytes [configFile] has beyond the first 100, the file system
    as [file_exists] answers, and the [nodeSubdir] text, an [extern]
    array defined outside configuration.c. *)
Variable spare : nat.
Variable file_exists : string -> bool.
Variable nodeSubdir : string.

(** [int8_t node_init(struct arguments *args)]: the return value, the
    content of [configFile] on return (emptied by the [memset] on entry,
    then written by [strcpy] and [strcat]), and the events in order; no
    defined result when a copy does not fit the array. *)
Definition node_init (args : arguments) : outcome (Z * string * list event) :=
  let size := configFile_size spare in
  let configFile := EmptyString in
  match config args with
  | Some path =>
      if file_exists path then
        configFile <- strcpy size path ;;
        Done (0, configFile, [FileExists path])
      else
        match directory args with
        | Some dir =>
            configFile <- strcpy size dir ;;
            configFile <- strcat size configFile path ;;
            if file_exists configFile then
              Done (0, configFile, [FileExists path; FileExists configFile])
            else
              Done (-1, configFile,
                    [FileExists path; FileExists configFile;
                     LOG LOG_FATAL (msg_not_found configFile)])
        | None =>
            Done (-1, configFile,
                  [FileExists path; LOG LOG_FATAL (msg_not_found path)])
        end
  | None =>
      match uuid args, directory args with
      | Some id, Some dir =>
          if negb (uuid_parse id =? 0) then
            Done (-1, configFile, [LOG LOG_FATAL msg_invalid_uuid])
          else
            configFile <- strcpy size dir ;;
            configFile <- strcat size configFile nodeSubdir ;;
            configFile <- strcat size configFile id ;;
            if file_exists configFile then
              Done (0, configFile, [FileExists configFile])
            else
              Done (-1, configFile,
                    [FileExists configFile;
                     LOG LOG_FATAL (msg_not_found configFile)])
      | _, _ =>
          Done (-1, configFile, [LOG LOG_FATAL msg_not_enough])
      end
  end.

End NodeInit.

(** The fatal messages among the events of a call. *)
Fixpoint fatal_messages (trace : list event) : list string :=
  match trace with
  | [] => []
  | LOG LOG_FATAL m :: rest => m :: fatal_messages rest
  | FileExists _ :: rest => fatal_messages rest
  end.

(** The paths a call asked the file system about. *)
Fixpoint queried (trace : list event) : list string :=
  match trace with
  | [] => []
  | FileExists p :: rest => p :: queried rest
  | LOG _ _ :: rest => queried rest
  end.

(** ** get_uuid *)

(** [printf]'s [%02x] of one byte. *)
Definition xdigit (d : Z) : ascii :=
  if d <? 10 then ascii_of_N (Z.to_N (48 + d)) else ascii_of_N (Z.to_N (87 + d)).

Definition hex2 (b : Z) : string :=
  String (xdigit ((b / 16) mod 16)) (String (xdigit (b mod 16)) EmptyString).

(** [uuid_unparse] of libuuid: the 16 bytes in order, two lower-case
    digits each, a hyphen after bytes 4, 6, 8 and 10. *)
Definition uuid_unparse (uu : list Z) : string :=
  let hex (from count : nat) :=
    String.concat "" (map hex2 (firstn count (skipn from uu))) in
  hex 0%nat 4%nat ++ "-" ++ hex 4%nat 2%nat ++ "-" ++ hex 6%nat 2%nat ++ "-"
  ++ hex 8%nat 2%nat ++ "-" ++ hex 10%nat 6%nat.

(** A local variable: [None] until something is assigned to it; using
    the value of one that was never assigned has no defined behaviour. *)
Definition local (A : Type) : Type := option A.

Definition read {A : Type} (x : local A) : outcome A :=
  match x with
  | Some a => Done a
  | None => Undefined
  end.

(** [int8_t get_uuid(int argc, char* argv[])]: the return value and the
    text [sprintf] leaves in [configFile].  [generated] is the 16 bytes
    [uuid_generate] produces when it is called.  The text has at most
    42 characters, which the 100 bytes of [configFile] hold. *)
Definition get_uuid (generated : list Z) (argc : Z) (argv : list string)
  : outcome (Z * string) :=
  let '(uuid_str, ret) :=
    if argc =? 2 then
      ((None : local string), (None : local Z))
    else
      (Some (uuid_unparse generated), Some 0)
  in
  s <- read uuid_str ;;
  let configFile := "Nodes/" ++ s in
  r <- read ret ;;
  Done (r, configFile).

(** ** Vocabulary of the statements *)

(** The seven fields, and the field a key addresses: the comparison
    chain of [get_config] and [set_config], first match first. *)
Inductive field : Type :=
| GwMask | DeviceId | GroupId | RchanId | Rsf | PreambleTime | EncKey.

Definition field_of_key (key : string) : option field :=
  if strcmp key strGwMask =? 0 then Some GwMask
  else if strcmp key strDeviceId =? 0 then Some DeviceId
  else if strcmp key strGroupId =? 0 then Some GroupId
  else if strcmp key strRchanId =? 0 then Some RchanId
  else if strcmp key strRsf =? 0 then Some Rsf
  else if strcmp key strPreambleTime =? 0 then Some PreambleTime
  else if strcmp key strEncKey =? 0 then Some EncKey
  else None.

(** What a field holds: its bytes, or its one 2-byte word. *)
Definition field_value (f : field) (c : ConfigNode_t) : list Z :=
  match f with
  | GwMask => gwMask c
  | DeviceId => [deviceId c]
  | GroupId => groupId c
  | RchanId => [rchanId c]
  | Rsf => [rsf c]
  | PreambleTime => [preambleTime c]
  | EncKey => encKey c
  end.

(** The number of bytes (of words, for [preambleTime]) [get_config]
    reads from a field. *)
Definition field_count (f : field) : nat :=
  match f with
  | GwMask => 4
  | DeviceId => 1
  | GroupId => 2
  | RchanId => 1
  | Rsf => 1
  | PreambleTime => 1
  | EncKey => 16
  end.

(** Every field has its exact width. *)
Definition well_sized (c : ConfigNode_t) : Prop :=
  forall f, List.length (field_value f c) = field_count f.

(** A line, or a token, without the delimiter. *)
Definition has_colon (s : string) : bool :=
  existsb (is_delim ":") (list_ascii_of_string s).

(** The digits the codec writes under a case convention. *)
Definition canonical_hex_digit (upper : bool) (c : ascii) : bool :=
  let n := N_of_ascii c in
  ((48 <=? n) && (n <=? 57)
   || (if upper then (65 <=? n) && (n <=? 70) else (97 <=? n) && (n <=? 102)))%N.

Definition canonical_hex (upper : bool) (byteLength : nat) (v : string) : bool :=
  (String.length v =? 2 * byteLength)%nat
  && forallb (canonical_hex_digit upper) (list_ascii_of_string v).

(** A decimal text the codec accepts for the 2-byte field, written
    without leading zeros. *)
Definition canonical_decimal (v : string) : bool :=
  match Codec.encodeDecimalField v with
  | Some _ =>
      match v with
      | String "0" (String _ _) => false
      | _ => true
      end
  | None => false
  end.

(** The canonical encodings of the field a key addresses: exact width
    and the codec's case for the six hexadecimal fields, canonical
    decimal for [preambleTime]. *)
Definition canonical (upper : bool) (key : string) (v : string) : bool :=
  match field_of_key key with
  | Some PreambleTime => canonical_decimal v
  | Some f => canonical_hex upper (field_count f) v
  | None => false
  end.

(** The complete value the codec gives a field for a text: the bytes
    of the hexadecimal text, [None] when it is rejected, or the one word
    the decimal routine returns (it returns an integer for every text). *)
Definition decoded (f : field) (v : string) : option (list Z) :=
  match f with
  | PreambleTime =>
      Some [match Codec.encodeDecimalField v with Some n => n | None => 0 end]
  | _ => Codec.encodeHexField v (field_count f)
  end.

(** A run of delimiters. *)
Definition only_colons (s : string) : bool :=
  forallb (is_delim ":") (list_ascii_of_string s).

(** The record a call of [set_config] or [parse_line] leaves. *)
Definition record_after (m : outcome (Z * ConfigNode_t)) : outcome ConfigNode_t :=
  p <- m ;; Done (snd p).

(** The characters of a text [uuid_parse] accepts. *)
Definition uuid_char (c : ascii) : bool :=
  Ascii.eqb c "-" || isxdigit c.


(** * Properties *)

(** ** Key comparison *)

Lemma strcmp_zero (a b : string) : (strcmp a b =? 0) = String.eqb a b.
Proof.
  unfold strcmp.
  destruct (String.compare a b) eqn:E.
  - apply String.compare_eq_iff in E. subst. now rewrite String.eqb_refl.
  - destruct (String.eqb_spec a b) as [->|]; [|reflexivity].
    pose proof (String.compare_antisym b b) as A. rewrite E in A. discriminate.
  - destruct (String.eqb_spec a b) as [->|]; [|reflexivity].
    pose proof (String.compare_antisym b b) as A. rewrite E in A. discriminate.
Qed.

(** A key outside the closed set fails every comparison of the chain. *)
Lemma unrecognized_chain (key : string) :
  recognized key = false ->
  (strcmp key strGwMask =? 0) = false /\
  (strcmp key strDeviceId =? 0) = false /\
  (strcmp key strGroupId =? 0) = false /\
  (strcmp key strRchanId =? 0) = false /\
  (strcmp key strRsf =? 0) = false /\
  (strcmp key strPreambleTime =? 0) = false /\
  (strcmp key strEncKey =? 0) = false.
Proof.
  unfold recognized, recognized_keys. simpl.
  intros H. repeat (apply orb_false_elim in H; destruct H as [? H]).
  repeat split; assumption.
Qed.

Lemma recognized_field (key : string) :
  recognized key = false <-> field_of_key key = None.
Proof.
  split.
  - intros H. apply unrecognized_chain in H.
    destruct H as (H1 & H2 & H3 & H4 & H5 & H6 & H7).
    unfold field_of_key. now rewrite H1, H2, H3, H4, H5, H6, H7.
  - unfold field_of_key, recognized, recognized_keys. simpl.
    repeat match goal with
           | |- context [strcmp ?k ?s =? 0] =>
               destruct (strcmp k s =? 0); [discriminate|]
           end.
    reflexivity.
Qed.

(** Splits a goal along the comparison chain for [key]. *)
Ltac chain key :=
  destruct (strcmp key strGwMask =? 0) eqn:?;
  [|destruct (strcmp key strDeviceId =? 0) eqn:?;
    [|destruct (strcmp key strGroupId =? 0) eqn:?;
      [|destruct (strcmp key strRchanId =? 0) eqn:?;
        [|destruct (strcmp key strRsf =? 0) eqn:?;
          [|destruct (strcmp key strPreambleTime =? 0) eqn:?;
            [|destruct (strcmp key strEncKey =? 0) eqn:?]]]]]].

Section ConfigFacts.

Context {conv : Conversion}.

Lemma get_config_unknown (key value : string) (cfg : ConfigNode_t) :
  recognized key = false -> get_config key value cfg = (-1, value).
Proof.
  intros H. apply unrecognized_chain in H.
  destruct H as (H1 & H2 & H3 & H4 & H5 & H6 & H7).
  unfold get_config. now rewrite H1, H2, H3, H4, H5, H6, H7.
Qed.

Lemma set_config_unknown (key : string) (val : pointer) (cfg : ConfigNode_t) :
  recognized key = false -> set_config key val cfg = Done (-1, cfg).
Proof.
  intros H. apply unrecognized_chain in H.
  destruct H as (H1 & H2 & H3 & H4 & H5 & H6 & H7).
  unfold set_config. now rewrite H1, H2, H3, H4, H5, H6, H7.
Qed.

(** [set_config] touches no field but the one its key addresses. *)
Lemma set_config_frame (key : string) (val : pointer) (cfg cfg' : ConfigNode_t) (r : Z) :
  set_config key val cfg = Done (r, cfg') ->
  forall f, field_of_key key <> Some f -> field_value f cfg' = field_value f cfg.
Proof.
  unfold set_config, field_of_key. intros H f Hf.
  chain key;
    repeat match type of H with
           | bind ?m _ = _ => destruct m; simpl in H; [|discriminate]
           end;
    injection H as <- <-; destruct f; try reflexivity; congruence.
Qed.

(** A recognized key is answered with 0, whatever the value. *)
Lemma set_config_status (key : string) (val : pointer) (cfg cfg' : ConfigNode_t) (r : Z) :
  set_config key val cfg = Done (r, cfg') ->
  r = (if recognized key then 0 else -1).
Proof.
  intros H. destruct (recognized key) eqn:R.
  - apply not_false_iff_true in R. rewrite recognized_field in R.
    unfold set_config, field_of_key in *.
    chain key;
      repeat match type of H with
             | bind ?m _ = _ => destruct m; simpl in H; [|discriminate]
             end;
      try (injection H as <- <-; reflexivity).
    now elim R.
  - rewrite (set_config_unknown _ _ _ R) in H. now injection H as <- <-.
Qed.

End ConfigFacts.

(** ** The codec *)

#[local] Arguments Codec.encodeHexField : simpl never.
#[local] Arguments Codec.decodeHexField : simpl never.
#[local] Arguments Codec.encodeDecimalField : simpl never.
#[local] Arguments Codec.decodeDecimalField : simpl never.

Lemma encodeHexField_step (hi lo : ascii) (rest : string) (n : nat) :
  Codec.encodeHexField (String hi (String lo rest)) (S n) =
  match Codec.hexValue hi, Codec.hexValue lo, Codec.encodeHexField rest n with
  | Some h, Some l, Some bs => Some (16 * h + l :: bs)
  | _, _, _ => None
  end.
Proof. reflexivity. Qed.

Lemma encodeHexField_length (n : nat) :
  forall s bs, Codec.encodeHexField s n = Some bs -> List.length bs = n.
Proof.
  induction n as [|n IH]; intros s bs H.
  - now injection H as <-.
  - destruct s as [|hi [|lo rest]]; try discriminate.
    rewrite encodeHexField_step in H.
    destruct (Codec.hexValue hi); [|discriminate].
    destruct (Codec.hexValue lo); [|discriminate].
    destruct (Codec.encodeHexField rest n) eqn:E; [|discriminate].
    injection H as <-. simpl. f_equal. eauto.
Qed.

Lemma substring_whole (s : string) : substring 0 (String.length s) s = s.
Proof. induction s; simpl; congruence. Qed.

Lemma substring_none (s : string) : substring 0 0 s = EmptyString.
Proof. now destruct s. Qed.

Lemma append_empty (s : string) : s ++ EmptyString = s.
Proof. induction s; simpl; congruence. Qed.

Lemma writeText_start (buffer text : string) :
  Codec.writeText buffer 0 text true = text.
Proof.
  unfold Codec.writeText. simpl. now rewrite substring_none, append_empty.
Qed.

Lemma returned_zero (text : string) : returned (0, text) = (0, text).
Proof. reflexivity. Qed.

Lemma config_eta (c : ConfigNode_t) :
  mkConfig (deviceId c) (groupId c) (gwMask c) (rchanId c) (rsf c)
    (preambleTime c) (encKey c) = c.
Proof. now destruct c. Qed.

(** With the codec of the spec, a call of [set_config] that returns
    leaves the record as it was or gives the addressed field the
    complete value decoded from the text. *)
Lemma set_config_whole_field (upper : bool) (key : string) (val : pointer)
    (cfg cfg' : ConfigNode_t) (r : Z) :
  well_sized cfg ->
  set_config (conv := Codec.conversion upper) key val cfg = Done (r, cfg') ->
  cfg' = cfg \/
  exists f v new,
    field_of_key key = Some f /\ val = Some v /\ decoded f v = Some new /\
    List.length new = field_count f /\ field_value f cfg' = new.
Proof.
  intros W H. unfold set_config, field_of_key in *.
  chain key; simpl in H.
  all: try (destruct val as [v|]; simpl in H; [|discriminate]).
  all: try change (Pos.to_nat 1) with 1%nat in H.
  all: try change (Pos.to_nat 2) with 2%nat in H.
  all: try change (Pos.to_nat 4) with 4%nat in H.
  all: try change (Pos.to_nat 16) with 16%nat in H.
  - pose proof (W GwMask) as Wf. simpl in Wf.
    destruct (Codec.encodeHexField v 4) as [bs|] eqn:E; simpl in H;
      injection H as <- <-.
    + right. exists GwMask, v, bs. pose proof (encodeHexField_length _ _ _ E) as L.
      repeat split; auto. simpl.
      rewrite skipn_all2 by lia. apply List.app_nil_r.
    + left. apply config_eta.
  - destruct (Codec.encodeHexField v 1) as [bs|] eqn:E; simpl in H;
      injection H as <- <-.
    + right. exists DeviceId, v, bs. pose proof (encodeHexField_length _ _ _ E) as L.
      repeat split; auto. simpl.
      destruct bs as [|b [|]]; try discriminate. reflexivity.
    + left. apply config_eta.
  - pose proof (W GroupId) as Wf. simpl in Wf.
    destruct (Codec.encodeHexField v 2) as [bs|] eqn:E; simpl in H;
      injection H as <- <-.
    + right. exists GroupId, v, bs. pose proof (encodeHexField_length _ _ _ E) as L.
      repeat split; auto. simpl.
      rewrite skipn_all2 by lia. apply List.app_nil_r.
    + left. apply config_eta.
  - destruct (Codec.encodeHexField v 1) as [bs|] eqn:E.
    + pose proof (encodeHexField_length _ _ _ E) as L.
      destruct bs as [|b [|]]; try discriminate. simpl in H.
      injection H as <- <-.
      right. exists RchanId, v, [b]. repeat split; auto.
    + simpl in H. injection H as <- <-. left. apply config_eta.
  - destruct (Codec.encodeHexField v 1) as [bs|] eqn:E.
    + pose proof (encodeHexField_length _ _ _ E) as L.
      destruct bs as [|b [|]]; try discriminate. simpl in H.
      injection H as <- <-.
      right. exists Rsf, v, [b]. repeat split; auto.
    + simpl in H. injection H as <- <-. left. apply config_eta.
  - rewrite Nat2Z.id, substring_whole in H.
    right. exists PreambleTime, v. simpl.
    destruct (Codec.encodeDecimalField v) as [n|] eqn:E; simpl in H;
      injection H as <- <-; eexists; repeat split; simpl.
    unfold Codec.encodeDecimalField in E.
    destruct (Codec.decimalValue v) as [m|] eqn:D; [|discriminate].
    destruct (m <? 65536) eqn:B; [|discriminate]. injection E as <-.
    unfold Codec.decimalValue in D.
    destruct (NilZero.uint_of_string v); [|discriminate]. injection D as <-.
    unfold uint16. rewrite Z.mod_small; [reflexivity|]. lia.
  - pose proof (W EncKey) as Wf. simpl in Wf.
    destruct (Codec.encodeHexField v 16) as [bs|] eqn:E; simpl in H;
      injection H as <- <-.
    + right. exists EncKey, v, bs. pose proof (encodeHexField_length _ _ _ E) as L.
      repeat split; auto. simpl.
      rewrite skipn_all2 by lia. apply List.app_nil_r.
    + left. apply config_eta.
  - injection H as <- <-. now left.
Qed.

(** ** strtok and the two tokens of a line *)

Lemma take_token_plain (s : string) :
  has_colon s = false -> take_token ":" s = (s, None).
Proof.
  unfold has_colon. induction s as [|c s IH]; simpl; intros H.
  - reflexivity.
  - apply orb_false_elim in H. destruct H as [Hc Hs].
    rewrite Hc, (IH Hs). reflexivity.
Qed.

Lemma take_token_delim (tok rest : string) :
  has_colon tok = false ->
  take_token ":" (tok ++ String ":" rest) = (tok, Some rest).
Proof.
  unfold has_colon. induction tok as [|c tok IH]; simpl; intros H.
  - reflexivity.
  - apply orb_false_elim in H. destruct H as [Hc Hs].
    rewrite Hc, (IH Hs). reflexivity.
Qed.

Lemma skip_delims_token (tok rest : string) :
  tok <> EmptyString -> has_colon tok = false ->
  skip_delims ":" (tok ++ rest) = tok ++ rest.
Proof.
  unfold has_colon. destruct tok as [|c tok]; [congruence|]. simpl.
  intros _ H. apply orb_false_elim in H. destruct H as [Hc _]. now rewrite Hc.
Qed.

(** Past the leading delimiters, [strtok] returns the token that
    [take_token] cuts. *)
Lemma strtok_token (str : pointer) (saved s : string) :
  (match str with Some s => s | None => saved end) = s ->
  s <> EmptyString -> skip_delims ":" s = s ->
  strtok str ":" saved =
  match take_token ":" s with
  | (tok, Some after) => (Some tok, after)
  | (tok, None) => (Some tok, EmptyString)
  end.
Proof.
  intros E Hne Hs. unfold strtok. rewrite E, Hs.
  destruct s; [congruence|reflexivity].
Qed.

(** A token that ends the string. *)
Lemma strtok_last (str : pointer) (saved tok : string) :
  (match str with Some s => s | None => saved end) = tok ->
  tok <> EmptyString -> has_colon tok = false ->
  strtok str ":" saved = (Some tok, EmptyString).
Proof.
  intros E Hne Hc.
  rewrite (strtok_token str saved tok E Hne).
  - now rewrite take_token_plain.
  - rewrite <- (append_empty tok). now apply skip_delims_token.
Qed.

(** A token that a delimiter ends: the text after it is kept for the
    next call. *)
Lemma strtok_next (str : pointer) (saved tok rest : string) :
  (match str with Some s => s | None => saved end) = tok ++ String ":" rest ->
  tok <> EmptyString -> has_colon tok = false ->
  strtok str ":" saved = (Some tok, rest).
Proof.
  intros E Hne Hc.
  rewrite (strtok_token str saved _ E).
  - now rewrite take_token_delim.
  - destruct tok; [congruence|discriminate].
  - now apply skip_delims_token.
Qed.

Lemma strtok_exhausted : strtok NULL ":" EmptyString = (None, EmptyString).
Proof. reflexivity. Qed.

Lemma split_line_plain (line : string) :
  line <> EmptyString -> has_colon line = false ->
  split_line line = Some (line, NULL).
Proof.
  intros Hne Hc. unfold split_line.
  now rewrite (strtok_last (Some line) EmptyString line eq_refl Hne Hc).
Qed.

Lemma split_line_pair (key v : string) :
  key <> EmptyString -> has_colon key = false ->
  v <> EmptyString -> has_colon v = false ->
  split_line (key ++ String ":" v) = Some (key, Some v).
Proof.
  intros Hk Hkc Hv Hvc. unfold split_line.
  rewrite (strtok_next (Some (key ++ String ":" v)) EmptyString key v eq_refl Hk Hkc).
  now rewrite (strtok_last NULL v v eq_refl Hv Hvc).
Qed.

Lemma split_line_second_delimiter (key v rest : string) :
  key <> EmptyString -> has_colon key = false ->
  v <> EmptyString -> has_colon v = false ->
  split_line (key ++ String ":" (v ++ String ":" rest)) = Some (key, Some v).
Proof.
  intros Hk Hkc Hv Hvc. unfold split_line.
  rewrite (strtok_next (Some (key ++ String ":" (v ++ String ":" rest)))
             EmptyString key (v ++ String ":" rest) eq_refl Hk Hkc).
  now rewrite (strtok_next NULL (v ++ String ":" rest) v rest eq_refl Hv Hvc).
Qed.

Section ParseLineFacts.

Context {conv : Conversion}.

(** [parse_line] hands the two tokens to [set_config]. *)
Lemma parse_line_split (line : string) (cfg : ConfigNode_t) :
  parse_line line cfg =
  match split_line line with
  | Some (ptr_key, ptr_val) => set_config ptr_key ptr_val cfg
  | None => Done (-1, cfg)
  end.
Proof.
  unfold parse_line, split_line.
  now destruct (strtok (Some line) ":" EmptyString) as [[k|] saved].
Qed.

Lemma parse_line_plain (line : string) (cfg : ConfigNode_t) :
  line <> EmptyString -> has_colon line = false ->
  parse_line line cfg = set_config line NULL cfg.
Proof.
  intros Hne Hc. now rewrite parse_line_split, split_line_plain.
Qed.

(** The [preambleTime] branch takes [strlen] of the value first. *)
Lemma set_config_preambleTime (val : pointer) (cfg : ConfigNode_t) :
  set_config strPreambleTime val cfg =
  (n <- strlen val ;;
   t <- AsciiDecStringConversion_t val n ;;
   Done (0, set_preambleTime (uint16 t) cfg)).
Proof. reflexivity. Qed.

(** With routines that read their source, a recognized key and a null
    value have no defined result. *)
Lemma set_config_null (key : string) (cfg : ConfigNode_t) :
  (forall dest n, AsciiHexStringConversionBI8_t dest NULL n = Undefined) ->
  (forall dest, AsciiHexConversionOneValueBI8_t dest NULL = Undefined) ->
  recognized key = true ->
  set_config key NULL cfg = Undefined.
Proof.
  intros Hs Ho R. apply not_false_iff_true in R. rewrite recognized_field in R.
  unfold set_config, field_of_key in *.
  chain key; rewrite ?Hs, ?Ho; try reflexivity. now elim R.
Qed.

End ParseLineFacts.

(** ** Round trip through the codec *)

Lemma hex_digit_roundtrip (upper : bool) (c : ascii) :
  canonical_hex_digit upper c = true ->
  exists d, Codec.hexValue c = Some d /\ 0 <= d < 16 /\ Codec.hexDigit upper d = c.
Proof.
  intros H.
  destruct upper; destruct c as [[] [] [] [] [] [] [] []];
    vm_compute in H; try discriminate H;
    (eexists; split; [vm_compute; reflexivity | split; [lia | reflexivity]]).
Qed.

Lemma byte_high (h l : Z) : 0 <= h < 16 -> 0 <= l < 16 -> ((16 * h + l) / 16) mod 16 = h.
Proof.
  intros Hh Hl.
  replace ((16 * h + l) / 16) with h.
  - now apply Z.mod_small.
  - apply Z.div_unique with l; lia.
Qed.

Lemma byte_low (h l : Z) : 0 <= h < 16 -> 0 <= l < 16 -> (16 * h + l) mod 16 = l.
Proof.
  intros Hh Hl. symmetry. apply Z.mod_unique with h; lia.
Qed.

Lemma decodeHexField_step (upper : bool) (b : Z) (rest : list Z) (n : nat) :
  Codec.decodeHexField upper (b :: rest) (S n) =
  String (Codec.hexDigit upper ((b / 16) mod 16))
    (String (Codec.hexDigit upper (b mod 16)) (Codec.decodeHexField upper rest n)).
Proof. reflexivity. Qed.

(** A text of exact width in the codec's case decodes, and the bytes
    encode back to the text. *)
Lemma hex_roundtrip (upper : bool) (n : nat) :
  forall v, canonical_hex upper n v = true ->
  exists bs, Codec.encodeHexField v n = Some bs /\ List.length bs = n /\
             forall rest, Codec.decodeHexField upper (bs ++ rest)%list n = v.
Proof.
  unfold canonical_hex.
  induction n as [|n IH]; intros v H; apply andb_prop in H; destruct H as [L D].
  - destruct v; [|discriminate]. exists []. repeat split.
  - apply Nat.eqb_eq in L.
    destruct v as [|hi [|lo v]]; simpl in L; try lia.
    simpl in D. apply andb_prop in D. destruct D as [Dh D].
    apply andb_prop in D. destruct D as [Dl D].
    destruct (hex_digit_roundtrip upper hi Dh) as (h & Eh & Rh & Ch).
    destruct (hex_digit_roundtrip upper lo Dl) as (l & El & Rl & Cl).
    destruct (IH v) as (bs & E & Lb & R).
    { apply andb_true_intro. split; [apply Nat.eqb_eq; lia | assumption]. }
    exists (16 * h + l :: bs). rewrite encodeHexField_step, Eh, El, E.
    repeat split.
    + simpl. now f_equal.
    + intros rest. change ((16 * h + l :: bs) ++ rest)%list
        with (16 * h + l :: (bs ++ rest))%list.
      rewrite decodeHexField_step, byte_high, byte_low, Ch, Cl, R by assumption.
      reflexivity.
Qed.

(** A canonical decimal text is accepted, and the number it denotes is
    written back as the same text. *)
Lemma decimal_roundtrip (v : string) :
  canonical_decimal v = true ->
  exists n, Codec.encodeDecimalField v = Some n /\ 0 <= n < 65536 /\
            Codec.decodeDecimalField n = v.
Proof.
  unfold canonical_decimal.
  destruct (Codec.encodeDecimalField v) as [n|] eqn:E; [|discriminate].
  intros Hz. exists n. split; [reflexivity|].
  unfold Codec.encodeDecimalField, Codec.decimalValue in E.
  destruct (NilZero.uint_of_string v) as [d|] eqn:U; [|discriminate].
  simpl in E. destruct (Z.of_N (N.of_uint d) <? 65536) eqn:B; [|discriminate].
  injection E as <-. apply Z.ltb_lt in B. split; [lia|].
  unfold Codec.decodeDecimalField. rewrite N2Z.id, DecimalN.Unsigned.to_of.
  destruct v as [|c rest]; [discriminate|].
  unfold NilZero.uint_of_string in U.
  pose proof (NilEmpty.sus _ _ U) as S.
  simpl in U. destruct (NilEmpty.uint_of_string rest) as [d'|] eqn:U'; [|discriminate].
  assert (Decimal.unorm d = d) as ->.
  { apply uint_of_char_spec in U.
    destruct U as [[-> ->]|U].
    - destruct rest; [|discriminate]. injection U' as <-. reflexivity.
    - repeat (destruct U as [[_ ->]|U]; [reflexivity|]).
      destruct U as [_ ->]. reflexivity. }
  rewrite <- S. destruct d; try reflexivity. discriminate.
Qed.

(** ** node_init, branch by branch *)

Lemma string_length_append (a b : string) :
  String.length (a ++ b) = (String.length a + String.length b)%nat.
Proof. induction a; simpl; congruence. Qed.

Lemma string_append_assoc (a b c : string) : (a ++ b) ++ c = a ++ b ++ c.
Proof. induction a; simpl; congruence. Qed.


Lemma strcpy_overflow (size : nat) (src : string) :
  (size <= String.length src)%nat -> strcpy size src = Undefined.
Proof. intros H. unfold strcpy. apply Nat.ltb_ge in H. now rewrite H. Qed.


Lemma strcat_overflow (size : nat) (dest src : string) :
  (size <= String.length dest + String.length src)%nat ->
  strcat size dest src = Undefined.
Proof. intros H. unfold strcat. apply Nat.ltb_ge in H. now rewrite H. Qed.

(** What a copy returns is what it was given, and it fits. *)
Lemma strcpy_done (size : nat) (src text : string) :
  strcpy size src = Done text -> text = src /\ (String.length text < size)%nat.
Proof.
  unfold strcpy. destruct (String.length src <? size)%nat eqn:E; [|discriminate].
  intros [= <-]. split; [reflexivity|now apply Nat.ltb_lt].
Qed.

Lemma strcat_done (size : nat) (dest src text : string) :
  strcat size dest src = Done text ->
  text = dest ++ src /\ (String.length text < size)%nat.
Proof.
  unfold strcat.
  destruct (String.length dest + String.length src <? size)%nat eqn:E; [|discriminate].
  intros [= <-]. split; [reflexivity|].
  rewrite string_length_append. now apply Nat.ltb_lt.
Qed.

(** Follows the copies of a call that returns: each gave the text it
    was to write, and the text fits. *)
Ltac copies :=
  repeat match goal with
         | |- context [strcpy ?n ?src] =>
             let C := fresh "C" in
             destruct (strcpy n src) eqn:C;
             [apply strcpy_done in C; destruct C as [-> ?]; cbn [bind]
             |cbn [bind]; discriminate]
         | |- context [strcat ?n ?dest ?src] =>
             let C := fresh "C" in
             destruct (strcat n dest src) eqn:C;
             [apply strcat_done in C; destruct C as [-> ?]; cbn [bind]
             |cbn [bind]; discriminate]
         end.

Section NodeInitFacts.

Variable spare : nat.
Variable file_exists : string -> bool.
Variable nodeSubdir : string.


(** A path that exists and does not fit: the [strcpy] overflows. *)
Lemma node_init_config_overflow (args : arguments) (path : string) :
  config args = Some path -> file_exists path = true ->
  (configFile_size spare <= String.length path)%nat ->
  node_init spare file_exists nodeSubdir args = Undefined.
Proof. unfold node_init. intros -> -> L. now rewrite strcpy_overflow. Qed.






(** A well-formed uuid whose path does not fit: a copy overflows. *)
Lemma node_init_uuid_overflow (args : arguments) (id dir : string) :
  config args = None -> uuid args = Some id -> directory args = Some dir ->
  uuid_parse id = 0 ->
  (configFile_size spare
   <= String.length dir + String.length nodeSubdir + String.length id)%nat ->
  node_init spare file_exists nodeSubdir args = Undefined.
Proof.
  unfold node_init. intros -> -> -> -> L. cbn [Z.eqb negb].
  unfold strcpy.
  destruct (String.length dir <? configFile_size spare)%nat eqn:E1;
    [|reflexivity]. cbn [bind]. unfold strcat at 1.
  destruct (String.length dir + String.length nodeSubdir <? configFile_size spare)%nat
    eqn:E2; [|reflexivity]. cbn [bind].
  rewrite strcat_overflow; [reflexivity|].
  rewrite string_length_append. exact L.
Qed.

Lemma node_init_not_enough (args : arguments) :
  config args = None -> uuid args = None \/ directory args = None ->
  node_init spare file_exists nodeSubdir args =
  Done (-1, EmptyString, [LOG LOG_FATAL msg_not_enough]).
Proof.
  unfold node_init. intros -> [-> | ->]; [reflexivity|].
  now destruct (uuid args).
Qed.

(** A call returns 0 and logs nothing fatal, or returns -1 after one
    fatal message, which is one of the three. *)
Lemma node_init_codes (args : arguments) (ret : Z) (configFile : string)
    (trace : list event) :
  node_init spare file_exists nodeSubdir args = Done (ret, configFile, trace) ->
  (ret = 0 /\ fatal_messages trace = []) \/
  (ret = -1 /\
   exists m, fatal_messages trace = [m] /\
     (m = msg_not_enough \/ m = msg_invalid_uuid \/ exists p, m = msg_not_found p)).
Proof.
  unfold node_init.
  destruct (config args) as [path|].
  - destruct (file_exists path).
    + copies. intros [= <- <- <-]. now left.
    + destruct (directory args) as [dir|].
      * copies.
        destruct (file_exists (dir ++ path)); intros [= <- <- <-]; [now left|].
        right. split; [reflexivity|]. eexists. split; [reflexivity|]. eauto.
      * intros [= <- <- <-].
        right. split; [reflexivity|]. eexists. split; [reflexivity|]. eauto.
  - destruct (uuid args) as [id|], (directory args) as [dir|].
    + destruct (negb (uuid_parse id =? 0)).
      * intros [= <- <- <-].
        right. split; [reflexivity|]. eexists. split; [reflexivity|]. eauto.
      * copies.
        destruct (file_exists ((dir ++ nodeSubdir) ++ id)); intros [= <- <- <-];
          [now left|].
        right. split; [reflexivity|]. eexists. split; [reflexivity|]. eauto.
    + intros [= <- <- <-].
      right. split; [reflexivity|]. eexists. split; [reflexivity|]. eauto.
    + intros [= <- <- <-].
      right. split; [reflexivity|]. eexists. split; [reflexivity|]. eauto.
    + intros [= <- <- <-].
      right. split; [reflexivity|]. eexists. split; [reflexivity|]. eauto.
Qed.

End NodeInitFacts.

(** ** get_uuid *)

Lemma get_uuid_generated (generated : list Z) (argc : Z) (argv : list string) :
  argc <> 2 ->
  get_uuid generated argc argv = Done (0, "Nodes/" ++ uuid_unparse generated).
Proof.
  intros H. unfold get_uuid. apply Z.eqb_neq in H. now rewrite H.
Qed.

Lemma xdigit_isxdigit (d : Z) : 0 <= d < 16 -> isxdigit (xdigit d) = true.
Proof.
  intros H.
  assert (d = 0 \/ d = 1 \/ d = 2 \/ d = 3 \/ d = 4 \/ d = 5 \/ d = 6 \/ d = 7 \/
          d = 8 \/ d = 9 \/ d = 10 \/ d = 11 \/ d = 12 \/ d = 13 \/ d = 14 \/ d = 15)
    as C by lia.
  repeat (destruct C as [->|C]; [reflexivity|]). now subst.
Qed.

(** The text [uuid_unparse] writes for 16 bytes is one [uuid_parse]
    accepts: a generated identity is well formed. *)
Lemma uuid_unparse_parses (generated : list Z) :
  List.length generated = 16%nat -> uuid_parse (uuid_unparse generated) = 0.
Proof.
  intros L.
  do 16 (destruct generated as [|? generated]; [discriminate L|]).
  destruct generated; [|discriminate L].
  unfold uuid_parse, uuid_unparse, hex2.
  cbn [skipn firstn map String.concat append String.length Nat.eqb andb
       uuid_syntax orb Ascii.eqb].
  rewrite !xdigit_isxdigit; [reflexivity|..];
    first [apply Z.mod_pos_bound; lia].
Qed.

(** ** The width invariant *)

Lemma zeroConfig_well_sized : well_sized zeroConfig.
Proof. intros []; reflexivity. Qed.

Lemma field_eq_dec (f g : field) : {f = g} + {f <> g}.
Proof. decide equality. Qed.

(** With the codec of the spec, [set_config] keeps every field at its
    width. *)
Lemma set_config_well_sized (upper : bool) (key : string) (val : pointer)
    (cfg cfg' : ConfigNode_t) (r : Z) :
  well_sized cfg ->
  set_config (conv := Codec.conversion upper) key val cfg = Done (r, cfg') ->
  well_sized cfg'.
Proof.
  intros W H g.
  destruct (set_config_whole_field upper key val cfg cfg' r W H)
    as [->|(f & v & new & F & _ & _ & L & V)]; [apply W|].
  destruct (field_eq_dec g f) as [->|N].
  - now rewrite V.
  - rewrite (set_config_frame key val cfg cfg' r H g); [apply W|].
    rewrite F. congruence.
Qed.

(** * The claims *)

(** C1.  A key outside the seven recognized ones makes [get_config] and
    [set_config] return -1, and neither the value buffer nor any field
    of the record changes (whatever the conversion routines are).  A
    call of [set_config] changes no field but the one its key addresses
    (whatever the conversion routines are), and, with the codec of the
    spec and a record whose fields have their widths, it leaves the
    record as it was or gives the addressed field the complete value
    decoded from the text: no field is written in part. *)
Theorem unknown_key_rejected_whole_field_written :
  (forall (conv : Conversion) (key value : string) (val : pointer) (cfg : ConfigNode_t),
      recognized key = false ->
      get_config key value cfg = (-1, value) /\
      set_config key val cfg = Done (-1, cfg))
  /\
  (forall (conv : Conversion) (key : string) (val : pointer)
          (cfg cfg' : ConfigNode_t) (r : Z),
      set_config key val cfg = Done (r, cfg') ->
      forall f, field_of_key key <> Some f ->
                field_value f cfg' = field_value f cfg)
  /\
  (forall (upper : bool) (key : string) (val : pointer)
          (cfg cfg' : ConfigNode_t) (r : Z),
      well_sized cfg ->
      set_config (conv := Codec.conversion upper) key val cfg = Done (r, cfg') ->
      cfg' = cfg \/
      exists f v new,
        field_of_key key = Some f /\ val = Some v /\ decoded f v = Some new /\
        List.length new = field_count f /\ field_value f cfg' = new).
Proof.
  split; [|split].
  - intros conv key value val cfg R. split.
    + now apply get_config_unknown.
    + now apply set_config_unknown.
  - intros conv key val cfg cfg' r. apply set_config_frame.
  - intros upper key val cfg cfg' r. apply set_config_whole_field.
Qed.

Lemma unknown_key_rejected_whole_field_written_witness :
  recognized "colour" = false /\
  get_config (conv := Codec.conversion true) "colour" "old" zeroConfig = (-1, "old") /\
  set_config (conv := Codec.conversion true) "colour" (Some "AB") zeroConfig
  = Done (-1, zeroConfig).
Proof.
  split; [reflexivity|].
  exact (proj1 unknown_key_rejected_whole_field_written
           (Codec.conversion true) "colour" "old" (Some "AB") zeroConfig eq_refl).
Defined.







(** C4.  With [config] unset and [uuid] and [directory] not both set,
    the call returns -1 after the fatal "not enough parameters" message.
    Every call returns 0 with no fatal message, or -1 after exactly one
    of the three fatal messages. *)
Theorem node_init_insufficient_arguments (spare : nat)
    (file_exists : string -> bool) (nodeSubdir : string) (args : arguments) :
  (config args = None -> uuid args = None \/ directory args = None ->
   node_init spare file_exists nodeSubdir args =
   Done (-1, EmptyString, [LOG LOG_FATAL msg_not_enough]))
  /\
  (forall ret configFile trace,
     node_init spare file_exists nodeSubdir args = Done (ret, configFile, trace) ->
     (ret = 0 /\ fatal_messages trace = []) \/
     (ret = -1 /\
      exists m, fatal_messages trace = [m] /\
        (m = msg_not_enough \/ m = msg_invalid_uuid \/ exists p, m = msg_not_found p))).
Proof.
  split.
  - apply node_init_not_enough.
  - apply node_init_codes.
Qed.

Lemma node_init_insufficient_arguments_witness :
  node_init 0 (fun _ => true) "Nodes/" (mkArguments None None None)
  = Done (-1, EmptyString, [LOG LOG_FATAL msg_not_enough]).
Proof.
  exact (proj1 (node_init_insufficient_arguments 0 (fun _ => true) "Nodes/"
                  (mkArguments None None None))
           eq_refl (or_introl eq_refl)).
Defined.

(** C5, as the code has it.  [parse_line] cuts its line with two
    [strtok] calls: the key is the text before the first [':'] and the
    value the text between the first and the second [':'], or up to the
    end of the line when there is no second one; what follows a second
    delimiter is never handed to [set_config].  With the codec of the
    spec, both ["deviceId:AB"] and ["deviceId:AB:extra"] set [deviceId]
    to 0xAB and return 0. *)
Theorem parse_line_tokens (key v rest : string) :
  key <> EmptyString -> has_colon key = false ->
  v <> EmptyString -> has_colon v = false ->
  split_line (key ++ ":" ++ v) = Some (key, Some v) /\
  split_line (key ++ ":" ++ v ++ ":" ++ rest) = Some (key, Some v) /\
  (forall (conv : Conversion) (cfg : ConfigNode_t),
      parse_line (key ++ ":" ++ v) cfg = set_config key (Some v) cfg /\
      parse_line (key ++ ":" ++ v ++ ":" ++ rest) cfg = set_config key (Some v) cfg) /\
  (forall (upper : bool) (cfg : ConfigNode_t),
      parse_line (conv := Codec.conversion upper) "deviceId:AB" cfg
      = Done (0, set_deviceId 171 cfg) /\
      parse_line (conv := Codec.conversion upper) "deviceId:AB:extra" cfg
      = Done (0, set_deviceId 171 cfg)).
Proof.
  intros Hk Hkc Hv Hvc.
  pose proof (split_line_pair key v Hk Hkc Hv Hvc) as P.
  pose proof (split_line_second_delimiter key v rest Hk Hkc Hv Hvc) as Q.
  split; [exact P|]. split; [exact Q|]. split.
  - intros conv cfg. rewrite !parse_line_split.
    change (key ++ ":" ++ v) with (key ++ String ":" v).
    change (key ++ ":" ++ v ++ ":" ++ rest) with (key ++ String ":" (v ++ String ":" rest)).
    now rewrite P, Q.
  - intros upper cfg. split; reflexivity.
Qed.

Lemma parse_line_tokens_witness :
  split_line "deviceId:AB:extra" = Some ("deviceId", Some "AB").
Proof.
  refine (proj1 (proj2 (parse_line_tokens "deviceId" "AB" "extra" _ eq_refl _ eq_refl)));
    discriminate.
Defined.

(** C5, as the claim has it, fails: on ["deviceId:AB:extra"] the value
    handed to [set_config] is ["AB"], not ["AB:extra"], and the call
    succeeds with [deviceId] set to 0xAB. *)
Lemma parse_line_second_delimiter_counterexample :
  split_line "deviceId:AB:extra" = Some ("deviceId", Some "AB") /\
  Some "AB" <> Some "AB:extra" /\
  parse_line (conv := Codec.conversion true) "deviceId:AB:extra" zeroConfig
  = Done (0, set_deviceId 171 zeroConfig).
Proof.
  split; [reflexivity|]. split; [discriminate|reflexivity].
Qed.

(** C6, at the failing input.  The line ["preambleTime"] has no
    delimiter; [parse_line] hands it to [set_config] with a null value,
    and the [preambleTime] branch takes [strlen] of that null pointer:
    the call has no defined result, whatever the conversion routines
    are, where the claim has it return -1. *)
Theorem parse_line_bare_key_undefined (conv : Conversion) (cfg : ConfigNode_t) :
  has_colon "preambleTime" = false /\
  split_line "preambleTime" = Some (strPreambleTime, NULL) /\
  parse_line "preambleTime" cfg = Undefined.
Proof. repeat split. Qed.

(** C7.  With the codec of the spec, under either case convention: for
    each recognized key and each canonical text [v] for its field,
    [set_config key v] returns 0 and [get_config key] then leaves
    exactly [v] in the value buffer. *)
Theorem set_get_roundtrip (upper : bool) (key v : string) (cfg : ConfigNode_t) :
  canonical upper key v = true ->
  exists cfg',
    set_config (conv := Codec.conversion upper) key (Some v) cfg = Done (0, cfg') /\
    forall value,
      get_config (conv := Codec.conversion upper) key value cfg' = (0, v).
Proof.
  unfold canonical, field_of_key, set_config, get_config.
  chain key; intros C; try discriminate.
  all: try (apply hex_roundtrip in C; destruct C as (bs & E & L & R)).
  all: cbn [AsciiHexStringConversionBI8_t AsciiHexConversionOneValueBI8_t
            AsciiDecStringConversion_t FillBufferHexBI8_t FillBuffer16_t
            Codec.conversion strlen bind].
  all: try change (Z.to_nat (8 / 2)) with 4%nat.
  all: try change (Z.to_nat (2 / 2)) with 1%nat.
  all: try change (Z.to_nat (4 / 2)) with 2%nat.
  all: try change (Z.to_nat (32 / 2)) with 16%nat.
  all: try change (Z.to_nat 4) with 4%nat.
  all: try change (Z.to_nat 1) with 1%nat.
  all: try change (Z.to_nat 2) with 2%nat.
  all: try change (Z.to_nat 16) with 16%nat.
  all: try (simpl field_count in *; rewrite E; cbn [bind]).
  - eexists. split; [reflexivity|]. intros value. cbn [gwMask set_gwMask].
    now rewrite writeText_start, returned_zero, R.
  - destruct bs as [|b [|]]; try discriminate L.
    eexists. split; [reflexivity|]. intros value. cbn [deviceId set_deviceId hd app].
    rewrite writeText_start, returned_zero. f_equal. apply (R []).
  - eexists. split; [reflexivity|]. intros value. cbn [groupId set_groupId].
    now rewrite writeText_start, returned_zero, R.
  - destruct bs as [|b [|]]; try discriminate L.
    eexists. split; [reflexivity|]. intros value. cbn [rchanId set_rchanId].
    rewrite writeText_start, returned_zero. f_equal. apply (R []).
  - destruct bs as [|b [|]]; try discriminate L.
    eexists. split; [reflexivity|]. intros value. cbn [rsf set_rsf].
    rewrite writeText_start, returned_zero. f_equal. apply (R []).
  - apply decimal_roundtrip in C. destruct C as (n & E & B & R).
    rewrite Nat2Z.id, substring_whole, E. cbn [bind].
    eexists. split; [reflexivity|]. intros value.
    cbn [preambleTime set_preambleTime firstn map String.concat].
    rewrite writeText_start, returned_zero. unfold uint16.
    rewrite Z.mod_small by assumption. now rewrite R.
  - eexists. split; [reflexivity|]. intros value. cbn [encKey set_encKey].
    now rewrite writeText_start, returned_zero, R.
Qed.

Lemma set_get_roundtrip_witness :
  exists cfg',
    set_config (conv := Codec.conversion true) "gwMask" (Some "01ABFF10") zeroConfig
    = Done (0, cfg') /\
    forall value,
      get_config (conv := Codec.conversion true) "gwMask" value cfg' = (0, "01ABFF10").
Proof.
  exact (set_get_roundtrip true "gwMask" "01ABFF10" zeroConfig eq_refl).
Defined.

(** C8, as the code has it.  For the [preambleTime] key [set_config]
    hands the value and its [strlen] to [AsciiDecStringConversion_t],
    stores the integer that comes back, cut to 16 bits, and returns 0:
    whatever the routine is and whatever the text, a call that returns
    returns 0, and no error is reported for a number that does not fit
    the field. *)
Theorem set_config_preambleTime_never_fails (conv : Conversion) (val : pointer)
    (cfg : ConfigNode_t) :
  set_config strPreambleTime val cfg =
  (n <- strlen val ;;
   t <- AsciiDecStringConversion_t val n ;;
   Done (0, set_preambleTime (uint16 t) cfg))
  /\
  (forall r cfg', set_config strPreambleTime val cfg = Done (r, cfg') ->
     r = 0 /\ 0 <= preambleTime cfg' < 65536).
Proof.
  split; [apply set_config_preambleTime|].
  rewrite set_config_preambleTime. intros r cfg' H.
  destruct (strlen val) as [n|]; [|discriminate]. cbn [bind] in H.
  destruct (AsciiDecStringConversion_t val n) as [t|]; [|discriminate].
  injection H as <- <-. split; [reflexivity|].
  cbn [preambleTime set_preambleTime]. unfold uint16.
  apply Z.mod_pos_bound. lia.
Qed.

Lemma set_config_preambleTime_never_fails_witness :
  set_config (conv := Codec.conversion true) strPreambleTime (Some "4660") zeroConfig
  = Done (0, set_preambleTime 4660 zeroConfig) /\
  0 = 0 /\ 0 <= preambleTime (set_preambleTime 4660 zeroConfig) < 65536.
Proof.
  split; [reflexivity|].
  exact (proj2 (set_config_preambleTime_never_fails (Codec.conversion true)
                  (Some "4660") zeroConfig)
           0 (set_preambleTime 4660 zeroConfig) eq_refl).
Defined.

(** C8, as the claim has it, fails: 70000 does not fit two bytes (the
    codec of the spec rejects it), and [set_config] returns 0. *)
Lemma preambleTime_overflow_accepted :
  Codec.decimalValue "70000" = Some 70000 /\
  Codec.encodeDecimalField "70000" = None /\
  exists cfg',
    set_config (conv := Codec.conversion true) strPreambleTime (Some "70000") zeroConfig
    = Done (0, cfg').
Proof.
  split; [reflexivity|]. split; [reflexivity|]. eexists. reflexivity.
Qed.

(** C9, at the failing input.  With [argc = 2] nothing is assigned to
    [uuid_str] or [ret] before [sprintf] reads the one and [return] the
    other: the argument is not validated, and the call has no defined
    result, where the claim has it return -1 or 1. *)
Theorem get_uuid_explicit_argument_undefined (generated : list Z) (argv : list string) :
  get_uuid generated 2 argv = Undefined.
Proof. reflexivity. Qed.

(** C10, as the code has it.  A line that is not empty and holds no
    [':'] is handed to [set_config] whole, as the key, with a null
    value.  No branch tests the value: the [preambleTime] branch takes
    [strlen] of it, and the others pass it to a conversion routine.  So,
    with routines that read their source, the call returns (-1, the
    record unchanged) exactly when the line is none of the seven keys. *)
Theorem parse_line_delimiter_free (conv : Conversion) (line : string)
    (cfg : ConfigNode_t) :
  (forall dest n, AsciiHexStringConversionBI8_t dest NULL n = Undefined) ->
  (forall dest, AsciiHexConversionOneValueBI8_t dest NULL = Undefined) ->
  line <> EmptyString -> has_colon line = false ->
  split_line line = Some (line, NULL) /\
  parse_line line cfg = set_config line NULL cfg /\
  (line = strPreambleTime -> set_config line NULL cfg = Undefined) /\
  (recognized line = true -> parse_line line cfg = Undefined) /\
  (recognized line = false -> parse_line line cfg = Done (-1, cfg)) /\
  (defined (parse_line line cfg) <-> recognized line = false).
Proof.
  intros Hs Ho Hne Hc.
  pose proof (parse_line_plain line cfg Hne Hc) as P.
  assert (recognized line = true -> parse_line line cfg = Undefined) as U.
  { intros R. rewrite P. now apply set_config_null. }
  assert (recognized line = false -> parse_line line cfg = Done (-1, cfg)) as K.
  { intros R. rewrite P. now apply set_config_unknown. }
  split; [now apply split_line_plain|]. split; [exact P|].
  split; [now intros ->|]. split; [exact U|]. split; [exact K|].
  split.
  - intros [a D]. destruct (recognized line); [|reflexivity].
    rewrite U in D by reflexivity. discriminate.
  - intros R. eexists. now apply K.
Qed.

Lemma parse_line_delimiter_free_witness :
  parse_line (conv := Codec.conversion true) "nocolonhere" zeroConfig
  = Done (-1, zeroConfig).
Proof.
  refine (proj1 (proj2 (proj2 (proj2 (proj2
            (parse_line_delimiter_free (Codec.conversion true) "nocolonhere" zeroConfig
               (fun _ _ => eq_refl) (fun _ => eq_refl) _ eq_refl)))))
            eq_refl).
  discriminate.
Defined.

(** C10, as the claim has it, fails on the empty line: it holds no
    [':'], the first [strtok] call returns [NULL], and [parse_line]
    returns -1 without a call of [set_config]. *)
Lemma parse_line_empty_line_not_forwarded :
  has_colon EmptyString = false /\
  strtok (Some EmptyString) ":" EmptyString = (NULL, EmptyString) /\
  split_line EmptyString = None /\
  parse_line (conv := Codec.conversion true) EmptyString zeroConfig
  = Done (-1, zeroConfig).
Proof. repeat split. Qed.

(** * Further properties *)

(** ** Tokens of a line *)

Lemma skip_delims_colons (cs s : string) :
  only_colons cs = true -> skip_delims ":" (cs ++ s) = skip_delims ":" s.
Proof.
  unfold only_colons. induction cs as [|c cs IH]; simpl; intros H.
  - reflexivity.
  - apply andb_prop in H. destruct H as [Hc Hcs]. rewrite Hc. now apply IH.
Qed.

Lemma skip_delims_only_colons (cs : string) :
  only_colons cs = true -> skip_delims ":" cs = EmptyString.
Proof.
  intros H. rewrite <- (append_empty cs). now rewrite skip_delims_colons.
Qed.

Lemma skip_delims_head (s : string) (c : ascii) (r : string) :
  skip_delims ":" s = String c r -> is_delim ":" c = false.
Proof.
  induction s as [|a s IH]; simpl; [discriminate|].
  destruct (is_delim ":" a) eqn:E; [exact IH|].
  now intros [= <- <-].
Qed.

Lemma strtok_leading (cs s saved saved' : string) :
  only_colons cs = true ->
  strtok (Some (cs ++ s)) ":" saved = strtok (Some s) ":" saved'.
Proof. intros H. unfold strtok. now rewrite skip_delims_colons. Qed.

Lemma strtok_continue_leading (cs s : string) :
  only_colons cs = true ->
  strtok NULL ":" (cs ++ s) = strtok NULL ":" s.
Proof. intros H. unfold strtok, NULL. now rewrite skip_delims_colons. Qed.

Lemma strtok_nothing (str : pointer) (saved : string) :
  only_colons (match str with Some s => s | None => saved end) = true ->
  strtok str ":" saved = (NULL, EmptyString).
Proof. intros H. unfold strtok. now rewrite skip_delims_only_colons. Qed.

Lemma take_token_clean (s : string) :
  has_colon (fst (take_token ":" s)) = false.
Proof.
  unfold has_colon. induction s as [|c s IH]; simpl; [reflexivity|].
  destruct (is_delim ":" c) eqn:E; [reflexivity|].
  destruct (take_token ":" s) as [tok after]. simpl in *. now rewrite E, IH.
Qed.

(** A token [strtok] returns is not empty and holds no delimiter. *)
Lemma strtok_clean (str : pointer) (saved tok saved' : string) :
  strtok str ":" saved = (Some tok, saved') ->
  tok <> EmptyString /\ has_colon tok = false.
Proof.
  unfold strtok.
  destruct (skip_delims ":" (match str with Some s => s | None => saved end))
    as [|c r] eqn:E; [discriminate|].
  apply skip_delims_head in E.
  pose proof (take_token_clean (String c r)) as C.
  simpl in *. rewrite E in *.
  destruct (take_token ":" r) as [tok' [after|]]; simpl in C;
    intros [= <- <-]; (split; [discriminate|exact C]).
Qed.

Section FurtherConfigFacts.

Context {conv : Conversion}.

(** [get_config] reads the field its key addresses and nothing else. *)
Lemma get_config_reads_field (key value : string) (f : field)
    (cfg1 cfg2 : ConfigNode_t) :
  field_of_key key = Some f ->
  field_value f cfg1 = field_value f cfg2 ->
  get_config key value cfg1 = get_config key value cfg2.
Proof.
  unfold field_of_key, get_config.
  chain key; intros [= <-] H; simpl in H; now rewrite H.
Qed.

Lemma set_config_failure_unchanged (key : string) (val : pointer)
    (cfg cfg' : ConfigNode_t) :
  set_config key val cfg = Done (-1, cfg') -> recognized key = false /\ cfg' = cfg.
Proof.
  intros H. pose proof (set_config_status _ _ _ _ _ H) as S.
  destruct (recognized key) eqn:R; [discriminate|].
  rewrite (set_config_unknown _ _ _ R) in H. now injection H as <-.
Qed.

End FurtherConfigFacts.

Lemma uuid_syntax_chars (s : string) :
  forall i, uuid_syntax i s = true ->
            forallb uuid_char (list_ascii_of_string s) = true.
Proof.
  induction s as [|c s IH]; simpl; intros i H; [reflexivity|].
  apply andb_prop in H. destruct H as [Hc Hs].
  rewrite (IH _ Hs), andb_true_r. unfold uuid_char.
  destruct ((i =? 8)%nat || (i =? 13)%nat || (i =? 18)%nat || (i =? 23)%nat).
  - now rewrite Hc.
  - rewrite Hc. apply orb_true_r.
Qed.

Lemma uuid_parse_accepts (text : string) :
  uuid_parse text = 0 ->
  String.length text = 36%nat /\
  forallb uuid_char (list_ascii_of_string text) = true.
Proof.
  unfold uuid_parse.
  destruct (String.length text =? 36)%nat eqn:L; [|discriminate].
  destruct (uuid_syntax 0 text) eqn:S; [|discriminate].
  intros _. split; [now apply Nat.eqb_eq|now apply uuid_syntax_chars with 0%nat].
Qed.

(** ** Lines *)

(** X1.  Delimiters before the key and repeated delimiters between the
    key and the value are skipped: such a line is parsed as the plain
    [key:value] line, whatever the conversion routines are. *)
Theorem parse_line_skips_repeated_delimiters (conv : Conversion)
    (before between key v : string) (cfg : ConfigNode_t) :
  only_colons before = true -> only_colons between = true ->
  key <> EmptyString -> has_colon key = false ->
  v <> EmptyString -> has_colon v = false ->
  split_line (before ++ key ++ ":" ++ between ++ v) = Some (key, Some v) /\
  parse_line (before ++ key ++ ":" ++ between ++ v) cfg
  = set_config key (Some v) cfg.
Proof.
  intros Hb Hm Hk Hkc Hv Hvc.
  assert (split_line (before ++ key ++ ":" ++ between ++ v) = Some (key, Some v)) as S.
  { unfold split_line.
    rewrite (strtok_leading before _ EmptyString EmptyString Hb).
    change (key ++ ":" ++ between ++ v) with (key ++ String ":" (between ++ v)).
    rewrite (strtok_next (Some (key ++ String ":" (between ++ v))) EmptyString
               key (between ++ v) eq_refl Hk Hkc).
    rewrite (strtok_continue_leading between v Hm).
    now rewrite (strtok_last NULL v v eq_refl Hv Hvc). }
  split; [exact S|]. now rewrite parse_line_split, S.
Qed.

Lemma parse_line_skips_repeated_delimiters_witness :
  parse_line (conv := Codec.conversion true) "::deviceId:::AB" zeroConfig
  = set_config (conv := Codec.conversion true) "deviceId" (Some "AB") zeroConfig.
Proof.
  refine (proj2 (parse_line_skips_repeated_delimiters (Codec.conversion true)
                   "::" "::" "deviceId" "AB" zeroConfig eq_refl eq_refl _ eq_refl
                   _ eq_refl));
    discriminate.
Defined.

(** X2.  A line made of delimiters only (the empty line among them)
    yields no token: [parse_line] returns -1, the record is unchanged
    and [set_config] is not reached, whatever the conversion routines
    are. *)
Theorem parse_line_only_delimiters (conv : Conversion) (line : string)
    (cfg : ConfigNode_t) :
  only_colons line = true ->
  split_line line = None /\ parse_line line cfg = Done (-1, cfg).
Proof.
  intros H.
  assert (split_line line = None) as S.
  { unfold split_line. now rewrite (strtok_nothing (Some line) EmptyString H). }
  split; [exact S|]. now rewrite parse_line_split, S.
Qed.

Lemma parse_line_only_delimiters_witness :
  parse_line (conv := Codec.conversion true) ":::" zeroConfig = Done (-1, zeroConfig).
Proof.
  exact (proj2 (parse_line_only_delimiters (Codec.conversion true) ":::" zeroConfig
                  eq_refl)).
Defined.

(** X3.  A key followed by delimiters only (["key:"], ["key::"]) has no
    value token: [set_config] receives the key with a null value.  So
    for such a line with the [preambleTime] key the call has no defined
    result, whatever the conversion routines are, and with a key that
    is not recognized it returns -1 and leaves the record unchanged. *)
Theorem parse_line_missing_value (conv : Conversion) (key colons : string)
    (cfg : ConfigNode_t) :
  key <> EmptyString -> has_colon key = false -> only_colons colons = true ->
  split_line (key ++ ":" ++ colons) = Some (key, NULL) /\
  parse_line (key ++ ":" ++ colons) cfg = set_config key NULL cfg /\
  (key = strPreambleTime -> parse_line (key ++ ":" ++ colons) cfg = Undefined) /\
  (recognized key = false -> parse_line (key ++ ":" ++ colons) cfg = Done (-1, cfg)).
Proof.
  intros Hk Hkc Hc.
  assert (split_line (key ++ ":" ++ colons) = Some (key, NULL)) as S.
  { unfold split_line.
    change (key ++ ":" ++ colons) with (key ++ String ":" colons).
    rewrite (strtok_next (Some (key ++ String ":" colons)) EmptyString
               key colons eq_refl Hk Hkc).
    now rewrite (strtok_nothing NULL colons Hc). }
  assert (parse_line (key ++ ":" ++ colons) cfg = set_config key NULL cfg) as P.
  { now rewrite parse_line_split, S. }
  split; [exact S|]. split; [exact P|]. split.
  - intros ->. now rewrite P.
  - intros R. rewrite P. now apply set_config_unknown.
Qed.

Lemma parse_line_missing_value_witness :
  parse_line (conv := Codec.conversion true) "preambleTime:" zeroConfig = Undefined.
Proof.
  refine (proj1 (proj2 (proj2 (parse_line_missing_value (Codec.conversion true)
                   "preambleTime" EmptyString zeroConfig _ eq_refl eq_refl)))
            eq_refl).
  discriminate.
Defined.

(** X4.  What [parse_line] hands to [set_config] is clean: the key is
    never empty and holds no [':'], and the value, when there is one,
    is never empty and holds no [':'] either. *)
Theorem split_line_tokens_clean (line key : string) (val : pointer) :
  split_line line = Some (key, val) ->
  key <> EmptyString /\ has_colon key = false /\
  (forall v, val = Some v -> v <> EmptyString /\ has_colon v = false).
Proof.
  unfold split_line.
  destruct (strtok (Some line) ":" EmptyString) as [[k|] saved] eqn:K; [|discriminate].
  intros [= <- <-].
  destruct (strtok_clean _ _ _ _ K) as [Hk Hkc].
  split; [exact Hk|]. split; [exact Hkc|].
  intros v Hv.
  destruct (strtok NULL ":" saved) as [tok saved'] eqn:V. simpl in Hv. subst tok.
  exact (strtok_clean _ _ _ _ V).
Qed.

Lemma split_line_tokens_clean_witness :
  "gwMask" <> EmptyString /\ has_colon "gwMask" = false /\
  (forall v, Some "01AB" = Some v -> v <> EmptyString /\ has_colon v = false).
Proof.
  exact (split_line_tokens_clean ":gwMask::01AB:rest" "gwMask" (Some "01AB") eq_refl).
Defined.

(** X5.  The return value of [set_config] tells only whether the key was
    recognized: a call that returns gives 0 exactly for a recognized key,
    whatever the value and whatever the conversion routine made of it,
    and -1 exactly for any other key, with the record unchanged. *)
Theorem set_config_return_codes (conv : Conversion) (key : string) (val : pointer)
    (cfg cfg' : ConfigNode_t) (r : Z) :
  set_config key val cfg = Done (r, cfg') ->
  (r = 0 /\ recognized key = true) \/
  (r = -1 /\ recognized key = false /\ cfg' = cfg).
Proof.
  intros H. pose proof (set_config_status _ _ _ _ _ H) as S.
  destruct (recognized key) eqn:R.
  - now left.
  - right. subst r. destruct (set_config_failure_unchanged _ _ _ _ H) as [_ E].
    now repeat split.
Qed.

Lemma set_config_return_codes_witness :
  (0 = 0 /\ recognized "rsf" = true) \/
  (0 = -1 /\ recognized "rsf" = false /\ set_rsf 0 zeroConfig = zeroConfig).
Proof.
  exact (set_config_return_codes (Codec.conversion true) "rsf" (Some "not hex")
           zeroConfig (set_rsf 0 zeroConfig) 0 eq_refl).
Defined.

(** X6.  A call of [parse_line] that returns gives 0 or -1: 0 when the
    first token of the line is a recognized key, and -1 (no token, or a
    key that is not recognized) with the record unchanged. *)
Theorem parse_line_return_codes (conv : Conversion) (line : string)
    (cfg cfg' : ConfigNode_t) (r : Z) :
  parse_line line cfg = Done (r, cfg') ->
  (r = 0 /\ exists key val, split_line line = Some (key, val) /\ recognized key = true)
  \/ (r = -1 /\ cfg' = cfg).
Proof.
  rewrite parse_line_split.
  destruct (split_line line) as [[key val]|].
  - intros H. pose proof (set_config_status _ _ _ _ _ H) as S.
    destruct (recognized key) eqn:R.
    + left. split; [exact S|]. now exists key, val.
    + right. subst r. destruct (set_config_failure_unchanged _ _ _ _ H) as [_ E].
      now split.
  - intros [= <- <-]. now right.
Qed.

Lemma parse_line_return_codes_witness :
  (-1 = 0 /\ exists key val,
      split_line "colour:red" = Some (key, val) /\ recognized key = true)
  \/ (-1 = -1 /\ zeroConfig = zeroConfig).
Proof.
  exact (parse_line_return_codes (Codec.conversion true) "colour:red"
           zeroConfig zeroConfig (-1) eq_refl).
Defined.

(** ** Fields are independent *)

(** X7.  Writing one field does not change what [get_config] returns
    for a key that addresses another field, or for a key that is not
    recognized, whatever the conversion routines are. *)
Theorem set_config_get_config_other_key (conv : Conversion) (key other : string)
    (val : pointer) (value : string) (cfg cfg' : ConfigNode_t) (r : Z) :
  set_config key val cfg = Done (r, cfg') ->
  field_of_key other <> field_of_key key ->
  get_config other value cfg' = get_config other value cfg.
Proof.
  intros H N.
  destruct (field_of_key other) as [f|] eqn:F.
  - apply (get_config_reads_field other value f cfg' cfg F).
    apply (set_config_frame key val cfg cfg' r H). congruence.
  - apply recognized_field in F.
    now rewrite !(get_config_unknown other value _ F).
Qed.

Lemma set_config_get_config_other_key_witness :
  get_config (conv := Codec.conversion true) "gwMask" "" (set_deviceId 171 zeroConfig)
  = get_config (conv := Codec.conversion true) "gwMask" "" zeroConfig.
Proof.
  refine (set_config_get_config_other_key (Codec.conversion true) "deviceId" "gwMask"
            (Some "AB") "" zeroConfig (set_deviceId 171 zeroConfig) 0 eq_refl _).
  discriminate.
Defined.

(** Runs both orders of two [set_config] calls: each routine call is
    split into its outcomes once, and its result reused where the other
    order makes the same call. *)
Ltac config_step :=
  cbn [bind snd deviceId groupId gwMask rchanId rsf preambleTime encKey
       set_deviceId set_groupId set_gwMask set_rchanId set_rsf
       set_preambleTime set_encKey].

Ltac commute_fields :=
  config_step;
  repeat (match goal with
          | H : ?t = _ |- context [bind ?t _] => rewrite H
          | |- context [bind ?m _] =>
              lazymatch m with
              | Done _ => fail
              | Undefined => fail
              | bind _ _ => fail
              | _ => destruct m eqn:?
              end
          end; config_step).

(** X8.  Two calls of [set_config] whose keys address different fields
    commute: the record they leave, and whether they leave one at all,
    does not depend on their order, whatever the conversion routines
    are. *)
Theorem set_config_commutes (conv : Conversion) (key1 key2 : string)
    (val1 val2 : pointer) (cfg : ConfigNode_t) :
  field_of_key key1 <> field_of_key key2 ->
  (c <- record_after (set_config key1 val1 cfg) ;;
   record_after (set_config key2 val2 c))
  =
  (c <- record_after (set_config key2 val2 cfg) ;;
   record_after (set_config key1 val1 c)).
Proof.
  unfold field_of_key, set_config, record_after. intros N.
  chain key1; chain key2; try (now elim N); commute_fields; reflexivity.
Qed.

Lemma set_config_commutes_witness :
  (c <- record_after (set_config (conv := Codec.conversion true)
                        "deviceId" (Some "AB") zeroConfig) ;;
   record_after (set_config (conv := Codec.conversion true) "rsf" (Some "07") c))
  =
  (c <- record_after (set_config (conv := Codec.conversion true)
                        "rsf" (Some "07") zeroConfig) ;;
   record_after (set_config (conv := Codec.conversion true) "deviceId" (Some "AB") c)).
Proof.
  refine (set_config_commutes (Codec.conversion true) "deviceId" "rsf"
            (Some "AB") (Some "07") zeroConfig _).
  discriminate.
Defined.

(** ** Paths *)

(** X9.  [node_init] returns 0 only with a [configFile] that the file
    system has, and that was the last path it asked about; when it
    returns -1, [configFile] is empty or names a path the file system
    does not have.  At most two paths are asked about. *)
Theorem node_init_configFile_exists (spare : nat) (file_exists : string -> bool)
    (nodeSubdir : string) (args : arguments) (ret : Z) (configFile : string)
    (trace : list event) :
  node_init spare file_exists nodeSubdir args = Done (ret, configFile, trace) ->
  (ret = 0 -> file_exists configFile = true /\
              last (queried trace) EmptyString = configFile /\
              queried trace <> []) /\
  (ret = -1 -> configFile = EmptyString \/ file_exists configFile = false) /\
  (List.length (queried trace) <= 2)%nat.
Proof.
  unfold node_init.
  destruct (config args) as [path|].
  - destruct (file_exists path) eqn:E.
    + copies. intros [= <- <- <-]. simpl. repeat split; auto; discriminate.
    + destruct (directory args) as [dir|].
      * copies.
        destruct (file_exists (dir ++ path)) eqn:F; intros [= <- <- <-]; simpl;
          repeat split; auto; discriminate.
      * intros [= <- <- <-]. simpl. repeat split; auto; discriminate.
  - destruct (uuid args) as [id|], (directory args) as [dir|];
      try (intros [= <- <- <-]; simpl; repeat split; auto; discriminate).
    destruct (negb (uuid_parse id =? 0)).
    + intros [= <- <- <-]. simpl. repeat split; auto; discriminate.
    + copies.
      destruct (file_exists ((dir ++ nodeSubdir) ++ id)) eqn:F;
        intros [= <- <- <-]; simpl; repeat split; auto; discriminate.
Qed.

Lemma node_init_configFile_exists_witness :
  (0 = 0 -> String.eqb "d/cfg.txt" "d/cfg.txt" = true /\
            last (queried [FileExists "cfg.txt"; FileExists "d/cfg.txt"]) EmptyString
            = "d/cfg.txt" /\
            queried [FileExists "cfg.txt"; FileExists "d/cfg.txt"] <> []) /\
  (0 = -1 -> "d/cfg.txt" = EmptyString \/ String.eqb "d/cfg.txt" "d/cfg.txt" = false) /\
  (List.length (queried [FileExists "cfg.txt"; FileExists "d/cfg.txt"]) <= 2)%nat.
Proof.
  exact (node_init_configFile_exists 0 (String.eqb "d/cfg.txt") "Nodes/"
           (mkArguments (Some "cfg.txt") None (Some "d/")) 0 "d/cfg.txt"
           [FileExists "cfg.txt"; FileExists "d/cfg.txt"] eq_refl).
Defined.

(** X10.  Without a [config] argument, [node_init] returns 0 only for a
    [uuid] of 36 characters, each a hexadecimal digit or a hyphen, and
    [configFile] is then [directory ++ nodeSubdir ++ uuid]: the uuid
    adds no ['/'] and no ['.'] to the path. *)
Theorem node_init_uuid_file_name (spare : nat) (file_exists : string -> bool)
    (nodeSubdir : string) (args : arguments) (configFile : string)
    (trace : list event) :
  config args = None ->
  node_init spare file_exists nodeSubdir args = Done (0, configFile, trace) ->
  exists id dir,
    uuid args = Some id /\ directory args = Some dir /\
    configFile = dir ++ nodeSubdir ++ id /\
    String.length id = 36%nat /\
    forallb uuid_char (list_ascii_of_string id) = true /\
    uuid_char "/" = false /\ uuid_char "." = false.
Proof.
  unfold node_init. intros ->.
  destruct (uuid args) as [id|], (directory args) as [dir|]; try discriminate.
  destruct (uuid_parse id =? 0) eqn:P; simpl; [|discriminate].
  apply Z.eqb_eq in P. destruct (uuid_parse_accepts id P) as [L C].
  copies.
  destruct (file_exists ((dir ++ nodeSubdir) ++ id)); intros [= <- <-].
  exists id, dir. rewrite string_append_assoc. now repeat split.
Qed.

Lemma node_init_uuid_file_name_witness :
  exists id dir,
    Some "1b4e28ba-2fa1-11d2-883f-b9a761bde3fb" = Some id /\ Some "sim/" = Some dir /\
    "sim/Nodes/1b4e28ba-2fa1-11d2-883f-b9a761bde3fb" = dir ++ "Nodes/" ++ id /\
    String.length id = 36%nat /\
    forallb uuid_char (list_ascii_of_string id) = true /\
    uuid_char "/" = false /\ uuid_char "." = false.
Proof.
  exact (node_init_uuid_file_name 0 (fun _ => true) "Nodes/"
           (mkArguments None (Some "1b4e28ba-2fa1-11d2-883f-b9a761bde3fb") (Some "sim/"))
           "sim/Nodes/1b4e28ba-2fa1-11d2-883f-b9a761bde3fb"
           [FileExists "sim/Nodes/1b4e28ba-2fa1-11d2-883f-b9a761bde3fb"]
           eq_refl eq_refl).
Defined.

(** X11.  For every [argc] other than 2, [get_uuid] ignores [argv],
    returns 0 and leaves in [configFile] the text ["Nodes/"] followed by
    the generated uuid: 42 characters, the last 36 a text [uuid_parse]
    accepts. *)
Theorem get_uuid_generates_valid_path (generated : list Z) (argc : Z)
    (argv : list string) :
  argc <> 2 -> List.length generated = 16%nat ->
  get_uuid generated argc argv = Done (0, "Nodes/" ++ uuid_unparse generated) /\
  uuid_parse (uuid_unparse generated) = 0 /\
  String.length ("Nodes/" ++ uuid_unparse generated) = 42%nat.
Proof.
  intros A L.
  pose proof (uuid_unparse_parses generated L) as P.
  split; [now apply get_uuid_generated|]. split; [exact P|].
  destruct (uuid_parse_accepts _ P) as [L36 _].
  simpl. now rewrite L36.
Qed.

Lemma get_uuid_generates_valid_path_witness :
  get_uuid [1; 2; 3; 4; 5; 6; 7; 8; 9; 10; 171; 255; 0; 16; 17; 18] 3
    ["prog"; "one"; "two"]
  = Done (0, "Nodes/01020304-0506-0708-090a-abff00101112").
Proof.
  refine (proj1 (get_uuid_generates_valid_path
                   [1; 2; 3; 4; 5; 6; 7; 8; 9; 10; 171; 255; 0; 16; 17; 18] 3
                   ["prog"; "one"; "two"] _ eq_refl)).
  discriminate.
Defined.
